(** * streaming/stream_result_future.hh

    A shallow embedding of [streaming::stream_result_future], the future on
    the result of a streaming plan, and the properties of its completion
    logic, listener fan-out and initialisation protocol.

    The header holds two kinds of code.  The compiled C++ members (the
    constructor, [init], [init_receiving_side], [create_and_register] and
    [add_event_listener]) are embedded as they are compiled.  The members that
    are kept as reference text inside [#if 0] blocks ([getCurrentState],
    [handleSessionPrepared], [handleSessionComplete], [handleProgress],
    [fireStreamEvent], [maybeComplete]) are embedded from that text, under
    their names there; no compiled definition of them exists in the header. *)

From stdpp Require Import base gmap strings list.

Set Default Proof Using "Type".
Open Scope string_scope.
Open Scope list_scope.

(** ** Data model *)

(** [utils::UUID], [gms::inet_address] and [stream_event_handler*] are
    declared in headers that are not part of these sources; they are used
    here only as opaque, comparable identities. *)
Abbreviation UUID := N (only parsing).
Abbreviation inet_address := N (only parsing).
Abbreviation sstring := string (only parsing).
Abbreviation stream_event_handler := N (only parsing).

(** Modelled from the spec: the session state of a [SessionInfo]
    ("not-started, preparing, prepared, streaming, completed, failed"); the
    class is not part of these sources. *)
Inductive session_state : Type :=
| St_not_started | St_preparing | St_prepared | St_streaming
| St_completed | St_failed.

Definition session_state_eqb (a b : session_state) : bool :=
  match a, b with
  | St_not_started, St_not_started | St_preparing, St_preparing
  | St_prepared, St_prepared | St_streaming, St_streaming
  | St_completed, St_completed | St_failed, St_failed => true
  | _, _ => false
  end.

(** Modelled from the spec: [SessionInfo], "peer address, session index,
    files/bytes to send, files/bytes to receive, cumulative bytes
    transferred, session state".  The four totals are the accessors that
    [handleSessionPrepared] reads. *)
Record session_info : Type := SessionInfo {
  si_peer : inet_address;
  si_session_index : Z;
  getTotalFilesToReceive : Z;
  getTotalSizeToReceive : Z;
  getTotalFilesToSend : Z;
  getTotalSizeToSend : Z;
  si_bytes_transferred : Z;
  si_state : session_state
}.

Definition isFailed (i : session_info) : bool :=
  session_state_eqb (si_state i) St_failed.

(** Modelled from the spec: [ProgressInfo], "peer, session index, file
    identifier, bytes transferred delta/total". *)
Record progress_info : Type := ProgressInfo {
  pi_peer : inet_address;
  pi_session_index : Z;
  pi_file_name : string;
  pi_current_bytes : Z;
  pi_total_bytes : Z
}.

(** A [StreamSession] as the callbacks see it: [planId()], [sessionIndex()],
    [peer] and [getSessionInfo()]. *)
Record stream_session : Type := StreamSession {
  session_planId : UUID;
  sessionIndex : Z;
  session_peer : inet_address;
  getSessionInfo : session_info
}.

(** [StreamEvent], with the three payloads the callbacks construct. *)
Inductive stream_event : Type :=
| SessionPreparedEvent (planId : UUID) (sessionInfo : session_info)
| SessionCompleteEvent (session : stream_session)
| ProgressEvent (planId : UUID) (progress : progress_info).

(** [StreamState], as [getCurrentState] constructs it:
    [new StreamState(planId, description, coordinator.getAllSessionInfo())]. *)
Record stream_state : Type := StreamState {
  ss_plan_id : UUID;
  ss_description : sstring;
  ss_sessions : list session_info
}.

(** Modelled from the spec: [hasFailedSession], the derived predicate
    [any_failed], "true iff any contained SessionInfo.state == failed"; the
    class StreamState is not part of these sources. *)
Definition hasFailedSession (st : stream_state) : bool :=
  existsb isFailed (ss_sessions st).

(** [new StreamException(finalState, message)]. *)
Record stream_exception : Type := StreamException {
  ex_final_state : stream_state;
  ex_message : string
}.

(** Modelled from the spec: the one-shot resolution cell written by [set] and
    [setException], "PENDING -> {SUCCEEDED(snapshot), FAILED(snapshot,
    message)} exactly once"; the future base class that provides them is not
    part of these sources. *)
Inductive result_cell : Type :=
| Pending
| Succeeded (st : stream_state)
| Failed (st : stream_state) (message : string).

(** [is_done()]: the cell has been written. *)
Definition is_done (c : result_cell) : bool :=
  match c with Pending => false | _ => true end.

Definition cell_set (st : stream_state) (c : result_cell) : result_cell :=
  match c with Pending => Succeeded st | _ => c end.

Definition cell_setException (e : stream_exception) (c : result_cell)
  : result_cell :=
  match c with
  | Pending => Failed (ex_final_state e) (ex_message e)
  | _ => c
  end.

(** ** The coordinator interface

    [stream_coordinator.hh] is not part of these sources.  The future only
    calls the members below on its [_coordinator] reference, so the
    coordinator is an interface over an arbitrary state type [C]; every
    theorem of the future holds for every implementation of it.  The last
    member stands for the constructor call
    [StreamCoordinator(0, keepSSTableLevels, ...)] of the receiving side. *)
Class Coordinator (C : Type) : Type := {
  is_receiving : C -> bool;
  has_active_sessions : C -> bool;
  get_all_stream_sessions : C -> list stream_session;
  getAllSessionInfo : C -> list session_info;
  addSessionInfo : session_info -> C -> C;
  updateProgress : progress_info -> C -> C;
  session_init : stream_session -> UUID -> C -> C;
  connect_all_stream_sessions : C -> C;
  new_coordinator : Z -> bool -> C
}.

(** ** Effects

    What a call makes visible outside the future: log lines, invocations of a
    listener's [handleStreamEvent], [session->init(future)] and
    [connect_all_stream_sessions()]. *)
Inductive log_level : Type := INFO | WARN.

Inductive effect : Type :=
| Log (level : log_level) (format : string)
| HandleStreamEvent (listener : stream_event_handler) (event : stream_event)
| SessionInit (session : stream_session) (sink : UUID)
    (sink_listeners : list stream_event_handler)
| ConnectAll.

(** An exception escaping a listener's [handleStreamEvent]. *)
Inductive exn : Type :=
| ListenerFailure (listener : stream_event_handler) (event : stream_event).

Inductive outcome (A : Type) : Type :=
| Returned (a : A)
| Thrown (e : exn).
Arguments Returned {A} a.
Arguments Thrown {A} e.


(** ** The future *)

Section StreamResultFuture.
Context {C : Type} `{Coordinator C}.

(** The members of [stream_result_future].  [_coordinator] is a reference:
    the record holds the state of the one coordinator the future refers
    to.  [result] is the cell that [set] and [setException] write. *)
Record stream_result_future : Type := Future {
  plan_id : UUID;
  description : sstring;
  _coordinator : C;
  _event_listeners : list stream_event_handler;
  result : result_cell
}.

(** How a listener's [handleStreamEvent] ends on an event: [true] when it
    throws. *)
Variable handler_fails : stream_event_handler -> stream_event -> bool.

(** *** A state, exception and trace monad for the member functions *)

Definition M (A : Type) : Type :=
  stream_result_future -> outcome A * stream_result_future * list effect.

Definition ret {A} (a : A) : M A := fun s => (Returned a, s, []).

Definition bind {A B} (m : M A) (k : A -> M B) : M B := fun s =>
  match m s with
  | (Returned a, s1, t1) =>
      let '(r, s2, t2) := k a s1 in (r, s2, t1 ++ t2)
  | (Thrown e, s1, t1) => (Thrown e, s1, t1)
  end.

Definition get : M stream_result_future := fun s => (Returned s, s, []).

Definition modify (f : stream_result_future -> stream_result_future)
  : M unit := fun s => (Returned tt, f s, []).

Definition emit (e : effect) : M unit := fun s => (Returned tt, s, [e]).

Definition throw {A} (e : exn) : M A := fun s => (Thrown e, s, []).

Definition outcome_of {A} (r : outcome A * stream_result_future * list effect)
  : outcome A := r.1.1.
Definition state_of {A} (r : outcome A * stream_result_future * list effect)
  : stream_result_future := r.1.2.
Definition trace_of {A} (r : outcome A * stream_result_future * list effect)
  : list effect := r.2.

(** The monad is used through stdpp's [x ← m; k] and [m;; k]. *)
#[local] Instance M_ret : MRet M := @ret.
#[local] Instance M_bind : MBind M := fun A B k m => bind m k.

(** *** Field updates *)

Definition with_coordinator (f : C -> C) (s : stream_result_future)
  : stream_result_future :=
  {| plan_id := plan_id s; description := description s;
     _coordinator := f (_coordinator s);
     _event_listeners := _event_listeners s; result := result s |}.

Definition with_result (f : result_cell -> result_cell)
  (s : stream_result_future) : stream_result_future :=
  {| plan_id := plan_id s; description := description s;
     _coordinator := _coordinator s;
     _event_listeners := _event_listeners s; result := f (result s) |}.

(** [set(state)] and [setException(e)] on the future. *)
Definition set (st : stream_state) : M unit := modify (with_result (cell_set st)).
Definition setException (e : stream_exception) : M unit :=
  modify (with_result (cell_setException e)).

(** *** Compiled members *)

(** The constructor: the three initialisers, then the guard on
    [is_receiving] and [has_active_sessions], whose body holds only the
    comment [// set(getCurrentState());]. *)
Definition make_stream_result_future (plan_id_ : UUID) (description_ : sstring)
  (coordinator_ : C) : stream_result_future :=
  let this := {| plan_id := plan_id_; description := description_;
                 _coordinator := coordinator_;
                 _event_listeners := []; result := Pending |} in
  if negb (is_receiving (_coordinator this))
     && negb (has_active_sessions (_coordinator this))
  then this
  else this.

(** [create_and_register]: [make_shared], and a FIXME where the
    registration would be. *)
Definition create_and_register (plan_id_ : UUID) (description_ : sstring)
  (coordinator_ : C) : stream_result_future :=
  let future := make_stream_result_future plan_id_ description_ coordinator_ in
  future.

(** [add_event_listener]: [_event_listeners.push_back(listener)]. *)
Definition add_event_listener (listener : stream_event_handler)
  (s : stream_result_future) : stream_result_future :=
  {| plan_id := plan_id s; description := description s;
     _coordinator := _coordinator s;
     _event_listeners := _event_listeners s ++ [listener];
     result := result s |}.

(** [session->init(future)]: the call is recorded with the sink it is
    handed, and the session, which the coordinator owns, is updated. *)
Definition init_session (session : stream_session) : M unit :=
  s ← get;
  emit (SessionInit session (plan_id s) (_event_listeners s));;
  modify (with_coordinator (session_init session (plan_id s))).

Fixpoint init_sessions (sessions : list stream_session) : M unit :=
  match sessions with
  | [] => ret tt
  | session :: rest => init_session session ;; init_sessions rest
  end.

(** The static [init]: the future is created, every listener is added,
    every session the coordinator enumerates is initialised with the
    future, and the coordinator connects all sessions. *)
Definition init (plan_id_ : UUID) (description_ : sstring)
  (listeners_ : list stream_event_handler) (coordinator_ : C)
  : outcome unit * stream_result_future * list effect :=
  let future := create_and_register plan_id_ description_ coordinator_ in
  let future := fold_left (fun f l => add_event_listener l f) listeners_ future in
  (init_sessions (get_all_stream_sessions coordinator_);;
   emit ConnectAll;;
   modify (with_coordinator connect_all_stream_sessions)) future.

(** *** Members kept as reference text *)

(** [getCurrentState]. *)
Definition getCurrentState (s : stream_result_future) : stream_state :=
  StreamState (plan_id s) (description s) (getAllSessionInfo (_coordinator s)).

(** One iteration of the loop of [fireStreamEvent]:
    [listener.handleStreamEvent(event)]. *)
Definition handleStreamEvent (listener : stream_event_handler)
  (event : stream_event) : M unit :=
  emit (HandleStreamEvent listener event);;
  if handler_fails listener event
  then throw (ListenerFailure listener event)
  else ret tt.

Fixpoint for_each_listener (event : stream_event)
  (listeners : list stream_event_handler) : M unit :=
  match listeners with
  | [] => ret tt
  | listener :: rest =>
      handleStreamEvent listener event ;; for_each_listener event rest
  end.

(** [fireStreamEvent]. *)
Definition fireStreamEvent (event : stream_event) : M unit :=
  s ← get;
  for_each_listener event (_event_listeners s).

(** [maybeComplete]. *)
Definition maybeComplete : M unit :=
  s ← get;
  if negb (has_active_sessions (_coordinator s)) then
    let finalState := getCurrentState s in
    if hasFailedSession finalState then
      emit (Log WARN "[Stream #{}] Stream failed");;
      setException (StreamException finalState "Stream failed")
    else
      emit (Log INFO "[Stream #{}] All sessions completed");;
      set finalState
  else ret tt.

(** [handleSessionPrepared]. *)
Definition handleSessionPrepared (session : stream_session) : M unit :=
  let sessionInfo := getSessionInfo session in
  emit (Log INFO "[Stream #{} ID#{}] Prepare completed. Receiving {} files({} bytes), sending {} files({} bytes)");;
  s ← get;
  let event := SessionPreparedEvent (plan_id s) sessionInfo in
  modify (with_coordinator (addSessionInfo sessionInfo));;
  fireStreamEvent event.

(** [handleSessionComplete]. *)
Definition handleSessionComplete (session : stream_session) : M unit :=
  emit (Log INFO "[Stream #{}] Session with {} is complete");;
  fireStreamEvent (SessionCompleteEvent session);;
  let sessionInfo := getSessionInfo session in
  modify (with_coordinator (addSessionInfo sessionInfo));;
  maybeComplete.

(** [handleProgress]. *)
Definition handleProgress (progress : progress_info) : M unit :=
  modify (with_coordinator (updateProgress progress));;
  s ← get;
  fireStreamEvent (ProgressEvent (plan_id s) progress).

(** *** The receiving side *)

(** Modelled from the spec: the process-wide plan registry ([StreamManager],
    which is not part of these sources), "lookup-by-plan-id" with
    [getReceivingStream] as the lookup and [registerReceiving] as the
    registration under the future's plan id. *)
Record stream_manager : Type := StreamManager {
  receiving_streams : gmap N stream_result_future
}.

Definition getReceivingStream (planId : UUID) (manager : stream_manager)
  : option stream_result_future :=
  receiving_streams manager !! planId.

Definition registerReceiving (future : stream_result_future)
  (manager : stream_manager) : stream_manager :=
  StreamManager (<[plan_id future := future]> (receiving_streams manager)).

(** The compiled [init_receiving_side]: its whole body is inside [#if 0], so
    the function returns without reading or writing anything. *)
Definition init_receiving_side (session_index : Z) (plan_id_ : UUID)
  (description_ : sstring) (from : inet_address) (keep_ss_table_level : bool)
  (manager : stream_manager) : unit * stream_manager :=
  (tt, manager).

(** The body of [init_receiving_side] that is kept inside [#if 0]: look the
    plan up, create and register a future when there is none, return it.
    The three-argument constructor it calls delegates to the constructor
    above with a fresh coordinator. *)
Definition init_receiving_side_disabled_body (sessionIndex_ : Z)
  (planId : UUID) (description_ : sstring) (from : inet_address)
  (keepSSTableLevel : bool) (manager : stream_manager)
  : stream_result_future * stream_manager :=
  match getReceivingStream planId manager with
  | Some future => (future, manager)
  | None =>
      let future :=
        make_stream_result_future planId description_
          (new_coordinator 0 keepSSTableLevel) in
      (future, registerReceiving future manager)
  end.

(** *** Sequences of operations on one future *)

(** The three session-lifecycle callbacks. *)
Inductive callback : Type :=
| OnSessionPrepared (session : stream_session)
| OnSessionComplete (session : stream_session)
| OnProgress (progress : progress_info).

Definition run_callback (cb : callback) : M unit :=
  match cb with
  | OnSessionPrepared session => handleSessionPrepared session
  | OnSessionComplete session => handleSessionComplete session
  | OnProgress progress => handleProgress progress
  end.

(** The operations that can be performed on a constructed future. *)
Inductive operation : Type :=
| AddEventListener (listener : stream_event_handler)
| Callback (cb : callback)
| MaybeComplete.

Definition run_operation (op : operation) : M unit :=
  match op with
  | AddEventListener listener => modify (add_event_listener listener)
  | Callback cb => run_callback cb
  | MaybeComplete => maybeComplete
  end.

(** The state an operation leaves behind, whether it returned or threw: an
    exception escapes to the caller and the future stays as it was left. *)
Definition after {A} (m : M A) (s : stream_result_future)
  : stream_result_future := state_of (m s).

Definition run_callbacks (cbs : list callback) (s : stream_result_future)
  : stream_result_future :=
  fold_left (fun s cb => after (run_callback cb) s) cbs s.

Definition run_operations (ops : list operation) (s : stream_result_future)
  : stream_result_future :=
  fold_left (fun s op => after (run_operation op) s) ops s.

(** [n] successive invocations of a member function. *)
Fixpoint repeat_call (n : nat) (m : M unit) : M unit :=
  match n with
  | O => ret tt
  | S n' => m;; repeat_call n' m
  end.

(** The invocations of [handleStreamEvent] in a trace, in the order of the
    calls. *)
Fixpoint deliveries (t : list effect)
  : list (stream_event_handler * stream_event) :=
  match t with
  | [] => []
  | HandleStreamEvent l ev :: t' => (l, ev) :: deliveries t'
  | _ :: t' => deliveries t'
  end.

(** *** Identity of a future *)

(** What the argument of [equals] can refer to: nothing, an object of
    another class, or a future; an object carries the address it lives
    at, which is what [==] compares. *)
Inductive object : Type :=
| Null
| OtherObject (address : N)
| FutureObject (address : N) (that : stream_result_future).

Definition address_of (o : object) : option N :=
  match o with
  | Null => None
  | OtherObject a | FutureObject a _ => Some a
  end.

(** [equals]: [this == o], then [o == null || getClass() != o.getClass()],
    then [planId.equals(that.planId)]. *)
Definition equals (this_address : N) (this : stream_result_future)
  (o : object) : bool :=
  if bool_decide (address_of o = Some this_address) then true
  else match o with
       | Null => false
       | OtherObject _ => false
       | FutureObject _ that => N.eqb (plan_id this) (plan_id that)
       end.

(** [hashCode]: [planId.hashCode()]; the hash of a [UUID] is declared outside
    these sources and is a parameter. *)
Definition hashCode (UUID_hashCode : UUID -> Z) (this : stream_result_future)
  : Z :=
  UUID_hashCode (plan_id this).

(** *** Vocabulary for the invariants *)

(** The listeners that a sequence of operations registers, in order. *)
Fixpoint added_listeners (ops : list operation) : list stream_event_handler :=
  match ops with
  | [] => []
  | AddEventListener l :: ops' => l :: added_listeners ops'
  | _ :: ops' => added_listeners ops'
  end.

(** A written cell agrees with the future that holds it: the snapshot is of
    this plan, a success holds no failed session, a failure holds one and
    carries the message of [maybeComplete]. *)
Definition resolution_consistent (s : stream_result_future) : Prop :=
  match result s with
  | Pending => True
  | Succeeded st =>
      ss_plan_id st = plan_id s /\ ss_description st = description s
      /\ hasFailedSession st = false
  | Failed st message =>
      ss_plan_id st = plan_id s /\ ss_description st = description s
      /\ hasFailedSession st = true /\ message = "Stream failed"
  end.

End StreamResultFuture.

Arguments stream_result_future C : clear implicits.
Arguments stream_manager C : clear implicits.
Arguments object C : clear implicits.

(** ** A coordinator to run the future against *)

(** Modelled from the spec: a coordinator, "external collaborator owning
    session creation, connection setup, and the authoritative session
    table", with the session-info table "keyed by peer + session index":
    [addSessionInfo] replaces the whole record, [updateProgress] adds to the
    cumulative counter of an existing record and creates none, and a session
    is active until its state is completed or failed. *)
Record simple_coordinator : Type := SimpleCoordinator {
  sc_receiving : bool;
  sc_sessions : list stream_session;
  sc_session_info : gmap (N * Z) session_info;
  sc_sinks : list (Z * N);
  sc_connected : bool
}.

Definition is_terminal (st : session_state) : bool :=
  match st with St_completed | St_failed => true | _ => false end.

Definition add_bytes (delta : Z) (i : session_info) : session_info :=
  SessionInfo (si_peer i) (si_session_index i)
    (getTotalFilesToReceive i) (getTotalSizeToReceive i)
    (getTotalFilesToSend i) (getTotalSizeToSend i)
    (si_bytes_transferred i + delta) (si_state i).

#[export] Instance simple_coordinator_ops : Coordinator simple_coordinator := {
  is_receiving c := sc_receiving c;
  has_active_sessions c :=
    existsb (fun s => negb (is_terminal (si_state (getSessionInfo s))))
      (sc_sessions c);
  get_all_stream_sessions c := sc_sessions c;
  getAllSessionInfo c := (map_to_list (sc_session_info c)).*2;
  addSessionInfo i c :=
    SimpleCoordinator (sc_receiving c) (sc_sessions c)
      (<[(si_peer i, si_session_index i) := i]> (sc_session_info c))
      (sc_sinks c) (sc_connected c);
  updateProgress p c :=
    SimpleCoordinator (sc_receiving c) (sc_sessions c)
      (alter (add_bytes (pi_current_bytes p)) (pi_peer p, pi_session_index p)
         (sc_session_info c))
      (sc_sinks c) (sc_connected c);
  session_init s sink c :=
    SimpleCoordinator (sc_receiving c) (sc_sessions c) (sc_session_info c)
      (sc_sinks c ++ [(sessionIndex s, sink)]) (sc_connected c);
  connect_all_stream_sessions c :=
    SimpleCoordinator (sc_receiving c) (sc_sessions c) (sc_session_info c)
      (sc_sinks c) true;
  new_coordinator _ _ := SimpleCoordinator false [] ∅ [] false
}.

(** Listeners. *)
Definition no_handler_fails : stream_event_handler -> stream_event -> bool :=
  fun _ _ => false.

Definition only_fails (bad : stream_event_handler)
  : stream_event_handler -> stream_event -> bool :=
  fun l _ => N.eqb l bad.

(** Plan 7 with two peers. *)
Definition info_A (st : session_state) : session_info :=
  SessionInfo 10 0 2 2048 1 512 0 st.
Definition info_B (st : session_state) : session_info :=
  SessionInfo 11 0 0 0 3 4096 0 st.
Definition session_A (st : session_state) : stream_session :=
  StreamSession 7 0 10 (info_A st).
Definition session_B (st : session_state) : stream_session :=
  StreamSession 7 0 11 (info_B st).

Definition empty_coordinator : simple_coordinator :=
  SimpleCoordinator false [] ∅ [] false.

(** Both sessions are terminal; [b] is the state peer B ended in, and peer
    A's completion has not been reported to the future yet. *)
Definition coordinator_done (b : session_state) : simple_coordinator :=
  SimpleCoordinator false [session_A St_completed; session_B b]
    {[ (11%N, 0%Z) := info_B b ]} [] false.

Definition future_of (c : simple_coordinator)
  (listeners : list stream_event_handler) (cell : result_cell)
  : stream_result_future simple_coordinator :=
  Future 7 "repair" c listeners cell.

Definition progress_A : progress_info := ProgressInfo 10 0 "data-1.db" 512 2048.

Definition resolved_empty : result_cell := Succeeded (StreamState 7 "repair" []).

(** ** Properties *)

Section Properties.
Context {C : Type} `{Coordinator C}.
Variable handler_fails : stream_event_handler -> stream_event -> bool.

Implicit Types (s : stream_result_future C) (ev : stream_event).
Implicit Types (l : stream_event_handler) (ls : list stream_event_handler).

#[local] Ltac run_monad :=
  unfold mbind, M_bind, mret, M_ret, bind, ret, get, modify, emit, throw,
    set, setException, after, state_of, outcome_of, trace_of in *;
  simpl in *.

(** *** The listener loop *)

Lemma for_each_listener_all_return ev ls s :
  (forall l, l ∈ ls -> handler_fails l ev = false) ->
  for_each_listener handler_fails ev ls s
  = (Returned tt, s, map (fun l => HandleStreamEvent l ev) ls).
Proof.
  induction ls as [|l ls IH]; intros Hok; [reflexivity|].
  cbn [for_each_listener map]. unfold handleStreamEvent. run_monad.
  rewrite (Hok l) by apply list_elem_of_here. simpl.
  rewrite IH; [reflexivity|].
  intros l' Hl'. apply Hok. by apply list_elem_of_further.
Qed.

Lemma for_each_listener_first_failure ev pre l post s :
  (forall l', l' ∈ pre -> handler_fails l' ev = false) ->
  handler_fails l ev = true ->
  for_each_listener handler_fails ev (pre ++ l :: post) s
  = (Thrown (ListenerFailure l ev), s,
     map (fun l => HandleStreamEvent l ev) (pre ++ [l])).
Proof.
  intros Hpre Hl. induction pre as [|p pre IH].
  - cbn [app for_each_listener map]. unfold handleStreamEvent. run_monad.
    by rewrite Hl.
  - cbn [app for_each_listener map]. unfold handleStreamEvent. run_monad.
    rewrite (Hpre p) by apply list_elem_of_here. simpl.
    cbn [app] in IH. rewrite IH; [reflexivity|].
    intros l' Hl'. apply Hpre. by apply list_elem_of_further.
Qed.

Lemma for_each_listener_state ev ls s :
  (for_each_listener handler_fails ev ls s).1.2 = s.
Proof.
  induction ls as [|l ls IH]; [reflexivity|].
  cbn [for_each_listener]. unfold handleStreamEvent. run_monad.
  destruct (handler_fails l ev); simpl; [reflexivity|].
  destruct (for_each_listener handler_fails ev ls s) as [[o s'] t].
  simpl in *. by subst.
Qed.

Lemma for_each_listener_only_delivers ev ls s :
  Forall (fun e => exists l, e = HandleStreamEvent l ev)
    (for_each_listener handler_fails ev ls s).2.
Proof.
  induction ls as [|l ls IH]; [constructor|].
  cbn [for_each_listener]. unfold handleStreamEvent. run_monad.
  destruct (handler_fails l ev); simpl.
  - constructor; [by exists l | constructor].
  - destruct (for_each_listener handler_fails ev ls s) as [[o s'] t].
    simpl in *. constructor; [by exists l | done].
Qed.

Lemma fireStreamEvent_state ev s :
  after (fireStreamEvent handler_fails ev) s = s.
Proof.
  unfold fireStreamEvent. run_monad.
  pose proof (for_each_listener_state ev (_event_listeners s) s) as Hs.
  destruct (for_each_listener handler_fails ev (_event_listeners s) s)
    as [[o s'] t]. done.
Qed.

Lemma fireStreamEvent_only_delivers ev s :
  Forall (fun e => exists l, e = HandleStreamEvent l ev)
    (trace_of (fireStreamEvent handler_fails ev s)).
Proof.
  unfold fireStreamEvent. run_monad.
  pose proof (for_each_listener_only_delivers ev (_event_listeners s) s) as Ht.
  destruct (for_each_listener handler_fails ev (_event_listeners s) s)
    as [[o s'] t]. done.
Qed.

Lemma add_event_listeners_fold ls s :
  _event_listeners (fold_left (fun f l => add_event_listener l f) ls s)
  = _event_listeners s ++ ls.
Proof.
  revert s. induction ls as [|l ls IH]; intros s; simpl.
  - by rewrite app_nil_r.
  - rewrite IH. simpl. by rewrite <- app_assoc.
Qed.

Lemma deliveries_of_handle ev ls :
  deliveries (map (fun l => HandleStreamEvent l ev) ls)
  = map (fun l => (l, ev)) ls.
Proof. induction ls as [|l ls IH]; simpl; [done | by rewrite IH]. Qed.

(** *** What each member function leaves behind *)

Lemma hasFailedSession_spec (st : stream_state) :
  hasFailedSession st = true
  <-> exists i, i ∈ ss_sessions st /\ si_state i = St_failed.
Proof.
  unfold hasFailedSession. rewrite existsb_exists. split.
  - intros (i & Hin & Hf). exists i. split; [by apply list_elem_of_In|].
    unfold isFailed in Hf. by destruct (si_state i).
  - intros (i & Hin & Hf). exists i. split; [by apply list_elem_of_In|].
    unfold isFailed. by rewrite Hf.
Qed.

Lemma with_result_resolved (f : result_cell -> result_cell) s :
  f (result s) = result s -> with_result f s = s.
Proof. destruct s; unfold with_result; simpl. by intros ->. Qed.

Lemma maybeComplete_run s :
  maybeComplete s
  = if has_active_sessions (_coordinator s) then (Returned tt, s, [])
    else if hasFailedSession (getCurrentState s)
    then (Returned tt,
          with_result
            (cell_setException
               (StreamException (getCurrentState s) "Stream failed")) s,
          [Log WARN "[Stream #{}] Stream failed"])
    else (Returned tt, with_result (cell_set (getCurrentState s)) s,
          [Log INFO "[Stream #{}] All sessions completed"]).
Proof.
  unfold maybeComplete. run_monad.
  destruct (has_active_sessions (_coordinator s)); simpl; [reflexivity|].
  by destruct (hasFailedSession (getCurrentState s)).
Qed.

Lemma maybeComplete_resolved s :
  is_done (result s) = true ->
  exists t, maybeComplete s = (Returned tt, s, t) /\ deliveries t = [].
Proof.
  intros Hdone. rewrite maybeComplete_run.
  destruct (has_active_sessions (_coordinator s)); [by eexists|].
  destruct (hasFailedSession (getCurrentState s));
    rewrite with_result_resolved by (by destruct (result s));
    by eexists.
Qed.

Lemma handleSessionPrepared_after session s :
  after (handleSessionPrepared handler_fails session) s
  = with_coordinator (addSessionInfo (getSessionInfo session)) s.
Proof.
  unfold handleSessionPrepared. run_monad.
  set (s1 := with_coordinator _ s). set (ev := SessionPreparedEvent _ _).
  pose proof (fireStreamEvent_state ev s1) as Hs. unfold after, state_of in Hs.
  destruct (fireStreamEvent handler_fails ev s1) as [[[] s'] t]; by simpl in *.
Qed.

Lemma handleProgress_after progress s :
  after (handleProgress handler_fails progress) s
  = with_coordinator (updateProgress progress) s.
Proof.
  unfold handleProgress. run_monad.
  set (s1 := with_coordinator _ s). set (ev := ProgressEvent _ _).
  pose proof (fireStreamEvent_state ev s1) as Hs. unfold after, state_of in Hs.
  destruct (fireStreamEvent handler_fails ev s1) as [[[] s'] t]; by simpl in *.
Qed.

Lemma handleProgress_trace progress s :
  Forall (fun e => exists l,
            e = HandleStreamEvent l (ProgressEvent (plan_id s) progress))
    (trace_of (handleProgress handler_fails progress s)).
Proof.
  unfold handleProgress. run_monad.
  set (s1 := with_coordinator _ s). set (ev := ProgressEvent _ _).
  pose proof (fireStreamEvent_only_delivers ev s1) as Ht. unfold trace_of in Ht.
  destruct (fireStreamEvent handler_fails ev s1) as [[[] s'] t]; by simpl in *.
Qed.

Lemma handleSessionComplete_run session s :
  handleSessionComplete handler_fails session s
  = match fireStreamEvent handler_fails (SessionCompleteEvent session) s with
    | (Returned _, s1, t1) =>
        let '(o, s2, t2) :=
          maybeComplete
            (with_coordinator (addSessionInfo (getSessionInfo session)) s1) in
        (o, s2, Log INFO "[Stream #{}] Session with {} is complete" :: t1 ++ t2)
    | (Thrown e, s1, t1) =>
        (Thrown e, s1, Log INFO "[Stream #{}] Session with {} is complete" :: t1)
    end.
Proof.
  unfold handleSessionComplete. run_monad.
  destruct (fireStreamEvent handler_fails (SessionCompleteEvent session) s)
    as [[[] s1] t1]; [|reflexivity].
  by destruct (maybeComplete _) as [[o s2] t2].
Qed.

(** Every operation keeps [plan_id], [description] and the listeners it
    found, and all but [add_event_listener] keep the listener list. *)
Lemma maybeComplete_after_fields s :
  plan_id (after maybeComplete s) = plan_id s
  /\ _event_listeners (after maybeComplete s) = _event_listeners s
  /\ _coordinator (after maybeComplete s) = _coordinator s.
Proof.
  unfold after, state_of. rewrite maybeComplete_run.
  destruct (has_active_sessions _); [done|].
  by destruct (hasFailedSession _).
Qed.

Lemma run_callback_plan_id cb s :
  plan_id (after (run_callback handler_fails cb) s) = plan_id s.
Proof.
  destruct cb as [session|session|progress]; cbn [run_callback].
  - by rewrite handleSessionPrepared_after.
  - unfold after, state_of. rewrite handleSessionComplete_run.
    pose proof (fireStreamEvent_state (SessionCompleteEvent session) s) as Hs.
    unfold after, state_of in Hs.
    destruct (fireStreamEvent _ _ s) as [[[] s1] t1]; simpl in Hs; subst s1;
      [|reflexivity].
    set (s1 := with_coordinator _ s).
    destruct (maybeComplete_after_fields s1) as (Hp & _).
    unfold after, state_of in Hp.
    destruct (maybeComplete s1) as [[o s2] t2]. by simpl in *.
  - by rewrite handleProgress_after.
Qed.

Lemma run_callback_result cb s :
  result (after (run_callback handler_fails cb) s) <> result s ->
  exists session, cb = OnSessionComplete session.
Proof.
  destruct cb as [session|session|progress]; cbn [run_callback].
  - by rewrite handleSessionPrepared_after.
  - by exists session.
  - by rewrite handleProgress_after.
Qed.

Lemma deliveries_app (t1 t2 : list effect) :
  deliveries (t1 ++ t2) = deliveries t1 ++ deliveries t2.
Proof.
  induction t1 as [|e t1 IH]; [reflexivity|].
  destruct e; simpl; by rewrite ?IH.
Qed.

Lemma make_stream_result_future_fields (pid : UUID) (desc : sstring) (c : C) :
  make_stream_result_future pid desc c = Future pid desc c [] Pending.
Proof.
  unfold make_stream_result_future. simpl.
  by destruct (negb (is_receiving c) && negb (has_active_sessions c)).
Qed.

Lemma with_coordinator_id s : with_coordinator (fun c => c) s = s.
Proof. by destruct s. Qed.

Lemma init_sessions_run (sessions : list stream_session) s :
  init_sessions sessions s
  = (Returned tt,
     with_coordinator
       (fun c => fold_left (fun c x => session_init x (plan_id s) c) sessions c) s,
     map (fun x => SessionInit x (plan_id s) (_event_listeners s)) sessions).
Proof.
  revert s. induction sessions as [|x sessions IH]; intros s.
  - simpl. unfold mret, M_ret, ret. by rewrite with_coordinator_id.
  - cbn [init_sessions fold_left map]. unfold init_session. run_monad.
    by rewrite IH.
Qed.

Lemma add_event_listeners_run ls s :
  fold_left (fun f l => add_event_listener l f) ls s
  = Future (plan_id s) (description s) (_coordinator s)
      (_event_listeners s ++ ls) (result s).
Proof.
  revert s. induction ls as [|l ls IH]; intros s; simpl.
  - rewrite app_nil_r. by destruct s.
  - rewrite IH. simpl. by rewrite <- app_assoc.
Qed.

Lemma run_operation_plan_id (op : operation) s :
  plan_id (after (run_operation handler_fails op) s) = plan_id s.
Proof.
  destruct op as [l|cb|]; cbn [run_operation].
  - reflexivity.
  - apply run_callback_plan_id.
  - apply maybeComplete_after_fields.
Qed.

Lemma run_operations_plan_id (ops : list operation) s :
  plan_id (run_operations handler_fails ops s) = plan_id s.
Proof.
  unfold run_operations. revert s.
  induction ops as [|op ops IH]; intros s; simpl; [reflexivity|].
  by rewrite IH, run_operation_plan_id.
Qed.

(** The body kept inside [#if 0] in [init_receiving_side] finds or creates:
    the future it returns is the one registered under the plan id
    afterwards; a future that was registered is returned and the registry is
    left alone; otherwise a new future is constructed and registered. *)
Lemma init_receiving_side_disabled_body_find_or_create (idx : Z) (pid : UUID)
    (desc : sstring) (from : inet_address) (keep : bool)
    (manager : stream_manager C) :
  let r := init_receiving_side_disabled_body idx pid desc from keep manager in
  getReceivingStream pid r.2 = Some r.1
  /\ (forall f, getReceivingStream pid manager = Some f ->
      r = (f, manager))
  /\ (getReceivingStream pid manager = None ->
      r.1 = make_stream_result_future pid desc (new_coordinator 0 keep)
      /\ r.2 = registerReceiving r.1 manager).
Proof.
  unfold init_receiving_side_disabled_body.
  destruct (getReceivingStream pid manager) as [f|] eqn:Hfind; simpl.
  - split; [exact Hfind|]. split; [by intros ? [= ->] | done].
  - split; [|by split].
    unfold getReceivingStream, registerReceiving. simpl.
    rewrite make_stream_result_future_fields. simpl.
    apply lookup_insert_eq.
Qed.

(** *** The claims *)

(** C1 (as amended: the message is the literal of the source, and the cell is
    the pending one): when [maybeComplete] runs on a pending future whose
    coordinator reports no active sessions, it returns normally, having taken
    the snapshot [getCurrentState] and resolved the cell to
    [Failed snapshot "Stream failed"] if the snapshot has a failed session and
    to [Succeeded snapshot] otherwise; the outcome is the success exactly when
    no session info of the snapshot is in state failed. *)
Theorem maybeComplete_resolves_from_snapshot s :
  has_active_sessions (_coordinator s) = false ->
  result s = Pending ->
  let snapshot := getCurrentState s in
  outcome_of (maybeComplete s) = Returned tt
  /\ result (after maybeComplete s)
     = (if hasFailedSession snapshot
        then Failed snapshot "Stream failed"
        else Succeeded snapshot)
  /\ (result (after maybeComplete s) = Succeeded snapshot
      <-> forall i, i ∈ ss_sessions snapshot -> si_state i <> St_failed).
Proof.
  intros Hidle Hpending snapshot.
  unfold after, state_of, outcome_of. rewrite maybeComplete_run, Hidle.
  fold snapshot.
  destruct (hasFailedSession snapshot) eqn:Hfailed; simpl; rewrite Hpending;
    simpl; (split; [reflexivity|]); (split; [reflexivity|]).
  - apply hasFailedSession_spec in Hfailed as (i & Hin & Hst).
    split; [discriminate|]. intros Hnone. by destruct (Hnone i Hin).
  - split; [|reflexivity]. intros _ i Hin Hst.
    assert (hasFailedSession snapshot = true) as Habs
      by (apply hasFailedSession_spec; eauto).
    congruence.
Qed.

(** C3: once the cell is resolved, any number of further invocations of
    [maybeComplete] return normally, leave the whole future (resolved value,
    coordinator, listeners, identity) as it was, and hand no event to any
    listener. *)
Theorem maybeComplete_idempotent_once_resolved s (n : nat) :
  is_done (result s) = true ->
  exists t,
    repeat_call n maybeComplete s = (Returned tt, s, t) /\ deliveries t = [].
Proof.
  intros Hdone. induction n as [|n (t & Hrun & Hnone)].
  - by exists [].
  - destruct (maybeComplete_resolved s Hdone) as (t1 & Hone & Hnone1).
    exists (t1 ++ t). cbn [repeat_call]. run_monad.
    rewrite Hone, Hrun. split; [reflexivity|].
    by rewrite deliveries_app, Hnone1, Hnone.
Qed.

(** C4: [handleProgress] leaves the resolution cell as it found it and does
    nothing but hand the progress event to listeners (no line of the
    completion check is logged), whatever the coordinator reports; and over
    every sequence of callbacks, the cell can only differ at the end from the
    cell at the start if the sequence holds an on-session-complete
    callback. *)
Theorem handleProgress_never_resolves :
  (forall progress s,
      result (after (handleProgress handler_fails progress) s) = result s
      /\ Forall (fun e => exists l,
                   e = HandleStreamEvent l (ProgressEvent (plan_id s) progress))
           (trace_of (handleProgress handler_fails progress s)))
  /\ (forall (cbs : list callback) s,
        result (run_callbacks handler_fails cbs s) <> result s ->
        exists session, OnSessionComplete session ∈ cbs).
Proof.
  split.
  - intros progress s. split; [by rewrite handleProgress_after|].
    apply handleProgress_trace.
  - intros cbs. induction cbs as [|cb cbs IH]; intros s Hchanged; [done|].
    cbn [run_callbacks fold_left] in Hchanged.
    destruct cb as [session|session|progress].
    + cbn [run_callback] in Hchanged.
      destruct (IH (after (handleSessionPrepared handler_fails session) s))
        as (x & Hx).
      * unfold run_callbacks.
        by rewrite (handleSessionPrepared_after session s) at 2.
      * exists x. by apply list_elem_of_further.
    + exists session. apply list_elem_of_here.
    + cbn [run_callback] in Hchanged.
      destruct (IH (after (handleProgress handler_fails progress) s))
        as (x & Hx).
      * unfold run_callbacks.
        by rewrite (handleProgress_after progress s) at 2.
      * exists x. by apply list_elem_of_further.
Qed.

(** C5: [init] attaches every supplied listener, in order, then calls
    [init] on every session the coordinator enumerates, in enumeration order,
    each time handing over this future (its plan id, with all the listeners
    already attached), and tells the coordinator to connect all sessions only
    after the last of these calls. *)
Theorem init_wires_sessions_before_connecting (pid : UUID) (desc : sstring)
    (listeners : list stream_event_handler) (coordinator : C) :
  init pid desc listeners coordinator
  = (Returned tt,
     Future pid desc
       (connect_all_stream_sessions
          (fold_left (fun c x => session_init x pid c)
             (get_all_stream_sessions coordinator) coordinator))
       listeners Pending,
     map (fun x => SessionInit x pid listeners)
       (get_all_stream_sessions coordinator) ++ [ConnectAll]).
Proof.
  unfold init, create_and_register.
  rewrite make_stream_result_future_fields.
  rewrite add_event_listeners_run. simpl.
  run_monad. rewrite init_sessions_run. reflexivity.
Qed.

(** C6 (as amended: the delivery to every listener holds on the events that
    no registered listener fails on): on a registry built by
    [add_event_listener] calls, and with listeners that handle the event,
    [fireStreamEvent] returns after having invoked, within the call,
    [handleStreamEvent] once per registered entry, in the order the entries
    were appended, and nothing else. *)
Theorem fireStreamEvent_delivers_in_registration_order ev ls s :
  let registered := fold_left (fun f l => add_event_listener l f) ls s in
  (forall l, l ∈ _event_listeners registered -> handler_fails l ev = false) ->
  _event_listeners registered = _event_listeners s ++ ls
  /\ fireStreamEvent handler_fails ev registered
     = (Returned tt, registered,
        map (fun l => HandleStreamEvent l ev) (_event_listeners s ++ ls)).
Proof.
  intros registered Hok.
  assert (_event_listeners registered = _event_listeners s ++ ls) as Hreg
    by apply add_event_listeners_fold.
  split; [exact Hreg|].
  unfold fireStreamEvent. run_monad.
  rewrite for_each_listener_all_return by exact Hok.
  by rewrite Hreg.
Qed.

(** C7 (as amended): a listener's failure is not isolated.  When the first
    listener that fails on an event is [l], [fireStreamEvent] throws that
    failure to its caller, having invoked the listeners registered up to and
    including [l] and none of those registered after it, and leaves the
    future as it was.  [handleSessionComplete], which fires before it
    records the session, then throws too, without recording the session info
    and without running the completion check.  [handleSessionPrepared] and
    [handleProgress] update the coordinator before they fire, so that update
    is kept whether a listener fails or not. *)
Theorem listener_failure_propagates ev s pre l post :
  _event_listeners s = pre ++ l :: post ->
  (forall l', l' ∈ pre -> handler_fails l' ev = false) ->
  handler_fails l ev = true ->
  fireStreamEvent handler_fails ev s
  = (Thrown (ListenerFailure l ev), s,
     map (fun l => HandleStreamEvent l ev) (pre ++ [l]))
  /\ (forall session, ev = SessionCompleteEvent session ->
      handleSessionComplete handler_fails session s
      = (Thrown (ListenerFailure l ev), s,
         Log INFO "[Stream #{}] Session with {} is complete"
           :: map (fun l => HandleStreamEvent l ev) (pre ++ [l])))
  /\ (forall session,
      after (handleSessionPrepared handler_fails session) s
      = with_coordinator (addSessionInfo (getSessionInfo session)) s)
  /\ (forall progress,
      after (handleProgress handler_fails progress) s
      = with_coordinator (updateProgress progress) s).
Proof.
  intros Hreg Hpre Hl.
  assert (fireStreamEvent handler_fails ev s
          = (Thrown (ListenerFailure l ev), s,
             map (fun l => HandleStreamEvent l ev) (pre ++ [l]))) as Hfire.
  { unfold fireStreamEvent. run_monad. rewrite Hreg.
    by rewrite for_each_listener_first_failure. }
  split; [exact Hfire|]. split; [|split].
  - intros session ->. by rewrite handleSessionComplete_run, Hfire.
  - intros session. apply handleSessionPrepared_after.
  - intros progress. apply handleProgress_after.
Qed.

(** C9: in every state reached from the constructor by any sequence of
    [add_event_listener] calls, session-lifecycle callbacks and completion
    checks, whether they return or throw, [plan_id] is the plan id that was
    given to the constructor. *)
Theorem plan_id_never_changes (pid : UUID) (desc : sstring) (coordinator : C)
    (ops : list operation) :
  plan_id
    (run_operations handler_fails ops
       (make_stream_result_future pid desc coordinator))
  = pid.
Proof.
  by rewrite run_operations_plan_id, make_stream_result_future_fields.
Qed.

(** C10: [add_event_listener] checks nothing: each call appends its argument
    to the end of the list, which grows by one and keeps the entries it had
    in their order, so that registering [l] twice adds two occurrences of
    [l]; on an event that the listeners handle, [fireStreamEvent] then
    invokes [l] two more times than it has entries in the old list. *)
Theorem add_event_listener_keeps_duplicates l s :
  let once := add_event_listener l s in
  let twice := add_event_listener l once in
  _event_listeners once = _event_listeners s ++ [l]
  /\ _event_listeners twice = _event_listeners s ++ [l; l]
  /\ length (_event_listeners once) = S (length (_event_listeners s))
  /\ length (_event_listeners twice) = S (length (_event_listeners once))
  /\ count_occ N.eq_dec (_event_listeners twice) l
     = 2 + count_occ N.eq_dec (_event_listeners s) l
  /\ (forall ev,
        (forall l', l' ∈ _event_listeners twice -> handler_fails l' ev = false) ->
        count_occ N.eq_dec
          (deliveries (trace_of (fireStreamEvent handler_fails ev twice))).*1 l
        = 2 + count_occ N.eq_dec (_event_listeners s) l).
Proof.
  intros once twice.
  assert (_event_listeners twice = _event_listeners s ++ [l; l]) as Htwice
    by (simpl; by rewrite <- app_assoc).
  assert (count_occ N.eq_dec (_event_listeners s ++ [l; l]) l
          = 2 + count_occ N.eq_dec (_event_listeners s) l) as Hcount.
  { rewrite count_occ_app. simpl. destruct (N.eq_dec l l); [lia | done]. }
  split; [reflexivity|]. split; [exact Htwice|].
  split; [simpl; rewrite length_app; simpl; lia|].
  split; [simpl; rewrite !length_app; simpl; lia|].
  split; [by rewrite Htwice|].
  intros ev Hok. unfold fireStreamEvent. run_monad.
  rewrite for_each_listener_all_return by exact Hok.
  simpl. rewrite deliveries_of_handle, <- list_fmap_compose.
  rewrite <- app_assoc. simpl.
  replace (map _ (_event_listeners s ++ [l; l]))
    with (_event_listeners s ++ [l; l]); [exact Hcount|].
  generalize (_event_listeners s ++ [l; l]). intros xs.
  induction xs as [|x xs IH]; simpl; [done | by rewrite <- IH].
Qed.

End Properties.

(** ** The claims on the two-peer plan *)

(** C1, at a plan whose peer B failed and at one whose peers both completed:
    the first resolves to the failure with the message of the source, the
    second to the success. *)
Lemma maybeComplete_resolves_from_snapshot_witness :
  (has_active_sessions
     (_coordinator (future_of (coordinator_done St_failed) [] Pending)) = false
   /\ result (future_of (coordinator_done St_failed) [] Pending) = Pending
   /\ result (after maybeComplete
                (future_of (coordinator_done St_failed) [] Pending))
      = Failed (StreamState 7 "repair" [info_B St_failed]) "Stream failed")
  /\ result (after maybeComplete
               (future_of (coordinator_done St_completed) [] Pending))
     = Succeeded (StreamState 7 "repair" [info_B St_completed]).
Proof.
  split; [split; [reflexivity | split; [reflexivity|]]|].
  - exact (proj1 (proj2 (maybeComplete_resolves_from_snapshot
             (future_of (coordinator_done St_failed) [] Pending)
             eq_refl eq_refl))).
  - exact (proj1 (proj2 (maybeComplete_resolves_from_snapshot
             (future_of (coordinator_done St_completed) [] Pending)
             eq_refl eq_refl))).
Defined.

(** C1 as stated fails on the message: at the plan whose peer B failed, the
    cell is not resolved to the failure with the message "stream failed". *)
Lemma maybeComplete_lowercase_message_counterexample :
  has_active_sessions
    (_coordinator (future_of (coordinator_done St_failed) [] Pending)) = false
  /\ result (future_of (coordinator_done St_failed) [] Pending) = Pending
  /\ hasFailedSession
       (getCurrentState (future_of (coordinator_done St_failed) [] Pending))
     = true
  /\ result (after maybeComplete
               (future_of (coordinator_done St_failed) [] Pending))
     <> Failed
          (getCurrentState (future_of (coordinator_done St_failed) [] Pending))
          "stream failed".
Proof.
  repeat split. intros Heq. vm_compute in Heq. discriminate Heq.
Qed.

(** C2, at the zero-session plan: the coordinator reports neither receiving
    activity nor active sessions, and the constructed future is pending. *)
Example constructor_leaves_zero_session_plan_pending :
  is_receiving empty_coordinator = false
  /\ has_active_sessions empty_coordinator = false
  /\ make_stream_result_future 7 "repair" empty_coordinator
     = Future 7 "repair" empty_coordinator [] Pending.
Proof. repeat split. Qed.

(** C3, at a resolved future and three further checks. *)
Lemma maybeComplete_idempotent_once_resolved_witness :
  is_done (result (future_of (coordinator_done St_failed) [1%N] resolved_empty))
  = true
  /\ exists t,
      repeat_call 3 maybeComplete
        (future_of (coordinator_done St_failed) [1%N] resolved_empty)
      = (Returned tt,
         future_of (coordinator_done St_failed) [1%N] resolved_empty, t)
      /\ deliveries t = [].
Proof.
  split; [reflexivity|].
  exact (maybeComplete_idempotent_once_resolved
           (future_of (coordinator_done St_failed) [1%N] resolved_empty) 3
           eq_refl).
Defined.

(** C4, at a progress callback followed by the completion of peer A: the cell
    changes, and the sequence holds an on-session-complete callback. *)
Lemma handleProgress_never_resolves_witness :
  result (run_callbacks no_handler_fails
            [OnProgress progress_A; OnSessionComplete (session_A St_completed)]
            (future_of (coordinator_done St_completed) [1%N] Pending))
  <> result (future_of (coordinator_done St_completed) [1%N] Pending)
  /\ exists session,
      OnSessionComplete session
      ∈ [OnProgress progress_A; OnSessionComplete (session_A St_completed)].
Proof.
  assert (result (run_callbacks no_handler_fails
            [OnProgress progress_A; OnSessionComplete (session_A St_completed)]
            (future_of (coordinator_done St_completed) [1%N] Pending))
          <> result (future_of (coordinator_done St_completed) [1%N] Pending))
    as Hchanged by (intros Heq; vm_compute in Heq; discriminate Heq).
  split; [exact Hchanged|].
  exact (proj2 (handleProgress_never_resolves no_handler_fails) _ _ Hchanged).
Defined.

(** C6, at one registered listener, two more registrations and a progress
    event. *)
Lemma fireStreamEvent_delivers_in_registration_order_witness :
  (forall l,
      l ∈ _event_listeners
            (fold_left (fun f l => add_event_listener l f) [2%N; 3%N]
               (future_of empty_coordinator [1%N] Pending)) ->
      no_handler_fails l (ProgressEvent 7 progress_A) = false)
  /\ fireStreamEvent no_handler_fails (ProgressEvent 7 progress_A)
       (fold_left (fun f l => add_event_listener l f) [2%N; 3%N]
          (future_of empty_coordinator [1%N] Pending))
     = (Returned tt, future_of empty_coordinator [1%N; 2%N; 3%N] Pending,
        [HandleStreamEvent 1 (ProgressEvent 7 progress_A);
         HandleStreamEvent 2 (ProgressEvent 7 progress_A);
         HandleStreamEvent 3 (ProgressEvent 7 progress_A)]).
Proof.
  split; [reflexivity|].
  exact (proj2 (fireStreamEvent_delivers_in_registration_order
                  no_handler_fails (ProgressEvent 7 progress_A) [2%N; 3%N]
                  (future_of empty_coordinator [1%N] Pending)
                  (fun _ _ => eq_refl))).
Defined.

(** C6 as stated fails: with listeners 1, 2 and 3 registered in that order
    and listener 2 failing on a progress event, [fireStreamEvent] throws
    after having invoked listeners 1 and 2; listener 3, registered at
    delivery time, is not handed the event, so the deliveries are not one per
    registered listener. *)
Lemma fireStreamEvent_every_listener_counterexample :
  _event_listeners (future_of empty_coordinator [1%N; 2%N; 3%N] Pending)
  = [1%N; 2%N; 3%N]
  /\ only_fails 2 2 (ProgressEvent 7 progress_A) = true
  /\ outcome_of
       (fireStreamEvent (only_fails 2) (ProgressEvent 7 progress_A)
          (future_of empty_coordinator [1%N; 2%N; 3%N] Pending))
     = Thrown (ListenerFailure 2 (ProgressEvent 7 progress_A))
  /\ deliveries
       (trace_of
          (fireStreamEvent (only_fails 2) (ProgressEvent 7 progress_A)
             (future_of empty_coordinator [1%N; 2%N; 3%N] Pending)))
     = [(1%N, ProgressEvent 7 progress_A); (2%N, ProgressEvent 7 progress_A)]
  /\ deliveries
       (trace_of
          (fireStreamEvent (only_fails 2) (ProgressEvent 7 progress_A)
             (future_of empty_coordinator [1%N; 2%N; 3%N] Pending)))
     <> map (fun l => (l, ProgressEvent 7 progress_A))
          (_event_listeners
             (future_of empty_coordinator [1%N; 2%N; 3%N] Pending)).
Proof.
  repeat split. intros Heq. vm_compute in Heq. discriminate Heq.
Qed.

(** C7, at three listeners of which the second fails. *)
Lemma listener_failure_propagates_witness :
  (_event_listeners (future_of (coordinator_done St_completed)
                       [1%N; 2%N; 3%N] Pending)
   = [1%N] ++ 2%N :: [3%N]
   /\ (forall l', l' ∈ [1%N] ->
       only_fails 2 l' (SessionCompleteEvent (session_A St_completed)) = false)
   /\ only_fails 2 2 (SessionCompleteEvent (session_A St_completed)) = true)
  /\ fireStreamEvent (only_fails 2)
       (SessionCompleteEvent (session_A St_completed))
       (future_of (coordinator_done St_completed) [1%N; 2%N; 3%N] Pending)
     = (Thrown (ListenerFailure 2 (SessionCompleteEvent (session_A St_completed))),
        future_of (coordinator_done St_completed) [1%N; 2%N; 3%N] Pending,
        [HandleStreamEvent 1 (SessionCompleteEvent (session_A St_completed));
         HandleStreamEvent 2 (SessionCompleteEvent (session_A St_completed))]).
Proof.
  assert (forall l', l' ∈ [1%N] ->
            only_fails 2 l' (SessionCompleteEvent (session_A St_completed))
            = false) as Hpre.
  { intros l' Hl'. apply list_elem_of_singleton in Hl' as ->. reflexivity. }
  split; [split; [reflexivity | split; [exact Hpre | reflexivity]]|].
  exact (proj1 (listener_failure_propagates (only_fails 2)
                  (SessionCompleteEvent (session_A St_completed))
                  (future_of (coordinator_done St_completed)
                     [1%N; 2%N; 3%N] Pending)
                  [1%N] 2%N [3%N] eq_refl Hpre eq_refl)).
Defined.

(** C7 as stated fails: with listeners 1 and 2 registered in that order and
    listener 1 failing on the session-complete event of peer A, the failure
    is thrown out of [fireStreamEvent], listener 2 is never invoked, and
    [handleSessionComplete] leaves the plan pending with peer A unrecorded,
    where with well-behaved listeners it records peer A and resolves. *)
Lemma listener_failure_isolation_counterexample :
  _event_listeners (future_of (coordinator_done St_completed) [1%N; 2%N] Pending)
  = [1%N; 2%N]
  /\ only_fails 1 1 (SessionCompleteEvent (session_A St_completed)) = true
  /\ outcome_of
       (fireStreamEvent (only_fails 1)
          (SessionCompleteEvent (session_A St_completed))
          (future_of (coordinator_done St_completed) [1%N; 2%N] Pending))
     = Thrown (ListenerFailure 1 (SessionCompleteEvent (session_A St_completed)))
  /\ deliveries
       (trace_of
          (fireStreamEvent (only_fails 1)
             (SessionCompleteEvent (session_A St_completed))
             (future_of (coordinator_done St_completed) [1%N; 2%N] Pending)))
     = [(1%N, SessionCompleteEvent (session_A St_completed))]
  /\ after (handleSessionComplete (only_fails 1) (session_A St_completed))
       (future_of (coordinator_done St_completed) [1%N; 2%N] Pending)
     = future_of (coordinator_done St_completed) [1%N; 2%N] Pending
  /\ result
       (after (handleSessionComplete no_handler_fails (session_A St_completed))
          (future_of (coordinator_done St_completed) [1%N; 2%N] Pending))
     = Succeeded
         (StreamState 7 "repair" [info_A St_completed; info_B St_completed]).
Proof. repeat split; vm_compute; reflexivity. Qed.

(** C8, at the first notification for plan 7 with an empty registry: nothing
    is registered under the plan id afterwards. *)
Example init_receiving_side_registers_nothing :
  getReceivingStream 7 (StreamManager (C := simple_coordinator) ∅) = None
  /\ init_receiving_side 0 7 "repair" 10 false
       (StreamManager (C := simple_coordinator) ∅)
     = (tt, StreamManager ∅)
  /\ getReceivingStream 7
       (init_receiving_side 0 7 "repair" 10 false
          (StreamManager (C := simple_coordinator) ∅)).2
     = None.
Proof. repeat split. Qed.

(** C10, at a registry holding listener 5 and a listener 9 registered
    twice. *)
Lemma add_event_listener_keeps_duplicates_witness :
  (forall l',
      l' ∈ _event_listeners
             (add_event_listener 9
                (add_event_listener 9
                   (future_of empty_coordinator [5%N] Pending))) ->
      no_handler_fails l' (ProgressEvent 7 progress_A) = false)
  /\ _event_listeners
       (add_event_listener 9
          (add_event_listener 9 (future_of empty_coordinator [5%N] Pending)))
     = [5%N; 9%N; 9%N]
  /\ count_occ N.eq_dec
       (deliveries
          (trace_of
             (fireStreamEvent no_handler_fails (ProgressEvent 7 progress_A)
                (add_event_listener 9
                   (add_event_listener 9
                      (future_of empty_coordinator [5%N] Pending)))))).*1
       9%N
     = 2.
Proof.
  pose proof (add_event_listener_keeps_duplicates no_handler_fails 9%N
                (future_of empty_coordinator [5%N] Pending)) as Hthm.
  split; [reflexivity|].
  split; [exact (proj1 (proj2 Hthm))|].
  exact (proj2 (proj2 (proj2 (proj2 (proj2 Hthm))))
           (ProgressEvent 7 progress_A) (fun _ _ => eq_refl)).
Defined.

(** ** Invariants and composition *)

Section Invariants.
Context {C : Type} `{Coordinator C}.
Variable handler_fails : stream_event_handler -> stream_event -> bool.

Implicit Types (s : stream_result_future C) (ev : stream_event).
Implicit Types (l : stream_event_handler) (ls : list stream_event_handler).

#[local] Ltac step_monad :=
  unfold mbind, M_bind, mret, M_ret, bind, ret, get, modify, emit, throw,
    set, setException, after, state_of, outcome_of, trace_of in *;
  simpl in *.

(** *** One operation at a time *)

Lemma handleSessionComplete_after session s :
  after (handleSessionComplete handler_fails session) s = s
  \/ after (handleSessionComplete handler_fails session) s
     = after maybeComplete
         (with_coordinator (addSessionInfo (getSessionInfo session)) s).
Proof.
  unfold after at 1 2, state_of. rewrite handleSessionComplete_run.
  pose proof (fireStreamEvent_state handler_fails
                (SessionCompleteEvent session) s) as Hs.
  unfold after, state_of in Hs.
  destruct (fireStreamEvent _ _ s) as [[[] s1] t1]; simpl in Hs; subst s1;
    [right | by left].
  unfold after, state_of.
  by destruct (maybeComplete _) as [[o s2] t2].
Qed.

Lemma maybeComplete_after_done s :
  is_done (result s) = true -> after maybeComplete s = s.
Proof.
  intros Hdone. destruct (maybeComplete_resolved s Hdone) as (t & Hrun & _).
  unfold after, state_of. by rewrite Hrun.
Qed.

Lemma maybeComplete_after_description s :
  description (after maybeComplete s) = description s.
Proof.
  unfold after, state_of. rewrite maybeComplete_run.
  destruct (has_active_sessions _); [done|].
  by destruct (hasFailedSession _).
Qed.

Lemma run_operation_result_done (op : operation) s :
  is_done (result s) = true ->
  result (after (run_operation handler_fails op) s) = result s.
Proof.
  intros Hdone. destruct op as [l|[session|session|progress]|];
    cbn [run_operation run_callback].
  - reflexivity.
  - by rewrite handleSessionPrepared_after.
  - destruct (handleSessionComplete_after session s) as [-> | ->]; [done|].
    by rewrite maybeComplete_after_done.
  - by rewrite handleProgress_after.
  - by rewrite maybeComplete_after_done.
Qed.

Lemma run_operations_app (ops1 ops2 : list operation) s :
  run_operations handler_fails (ops1 ++ ops2) s
  = run_operations handler_fails ops2 (run_operations handler_fails ops1 s).
Proof. unfold run_operations. apply fold_left_app. Qed.

Lemma run_operations_result_done (ops : list operation) s :
  is_done (result s) = true ->
  result (run_operations handler_fails ops s) = result s.
Proof.
  unfold run_operations. revert s.
  induction ops as [|op ops IH]; intros s Hdone; simpl; [reflexivity|].
  rewrite IH; rewrite run_operation_result_done; done.
Qed.

Lemma run_operation_listeners (op : operation) s :
  _event_listeners (after (run_operation handler_fails op) s)
  = _event_listeners s ++ added_listeners [op].
Proof.
  destruct op as [l|[session|session|progress]|];
    cbn [run_operation run_callback added_listeners]; rewrite ?app_nil_r.
  - reflexivity.
  - by rewrite handleSessionPrepared_after.
  - destruct (handleSessionComplete_after session s) as [-> | ->]; [done|].
    by destruct (maybeComplete_after_fields
                   (with_coordinator (addSessionInfo (getSessionInfo session)) s))
      as (_ & -> & _).
  - by rewrite handleProgress_after.
  - by destruct (maybeComplete_after_fields s) as (_ & -> & _).
Qed.

Lemma run_operation_description (op : operation) s :
  description (after (run_operation handler_fails op) s) = description s.
Proof.
  destruct op as [l|[session|session|progress]|];
    cbn [run_operation run_callback].
  - reflexivity.
  - by rewrite handleSessionPrepared_after.
  - destruct (handleSessionComplete_after session s) as [-> | ->]; [done|].
    by rewrite maybeComplete_after_description.
  - by rewrite handleProgress_after.
  - by rewrite maybeComplete_after_description.
Qed.

Lemma maybeComplete_consistent s :
  resolution_consistent s -> resolution_consistent (after maybeComplete s).
Proof.
  intros Hs. unfold after, state_of. rewrite maybeComplete_run.
  destruct (has_active_sessions _); [exact Hs|].
  unfold resolution_consistent in *.
  destruct (hasFailedSession (getCurrentState s)) eqn:Hfailed; simpl;
    destruct (result s); simpl; done.
Qed.

Lemma run_operation_consistent (op : operation) s :
  resolution_consistent s ->
  resolution_consistent (after (run_operation handler_fails op) s).
Proof.
  intros Hs. destruct op as [l|[session|session|progress]|];
    cbn [run_operation run_callback].
  - exact Hs.
  - by rewrite handleSessionPrepared_after.
  - destruct (handleSessionComplete_after session s) as [-> | ->]; [done|].
    by apply maybeComplete_consistent.
  - by rewrite handleProgress_after.
  - by apply maybeComplete_consistent.
Qed.

Lemma run_operations_description (ops : list operation) s :
  description (run_operations handler_fails ops s) = description s.
Proof.
  unfold run_operations. revert s.
  induction ops as [|op ops IH]; intros s; simpl; [reflexivity|].
  by rewrite IH, run_operation_description.
Qed.

Lemma run_operations_consistent (ops : list operation) s :
  resolution_consistent s ->
  resolution_consistent (run_operations handler_fails ops s).
Proof.
  unfold run_operations. revert s.
  induction ops as [|op ops IH]; intros s Hs; simpl; [exact Hs|].
  by apply IH, run_operation_consistent.
Qed.

Lemma fireStreamEvent_all_return ev s :
  (forall l, l ∈ _event_listeners s -> handler_fails l ev = false) ->
  fireStreamEvent handler_fails ev s
  = (Returned tt, s, map (fun l => HandleStreamEvent l ev) (_event_listeners s)).
Proof.
  intros Hok. unfold fireStreamEvent. step_monad.
  by rewrite for_each_listener_all_return.
Qed.

Lemma for_each_listener_prefix ev ls s :
  exists n,
    n <= length ls
    /\ (for_each_listener handler_fails ev ls s).2
       = map (fun l => HandleStreamEvent l ev) (take n ls)
    /\ ((for_each_listener handler_fails ev ls s).1.1 = Returned tt
        <-> forall l, l ∈ ls -> handler_fails l ev = false)
    /\ ((for_each_listener handler_fails ev ls s).1.1 = Returned tt
        -> n = length ls).
Proof.
  induction ls as [|l ls (n & Hn & Htrace & Hiff & Hall)].
  - exists 0. simpl. repeat split; try done. intros _ l Hl. by inversion Hl.
  - cbn [for_each_listener]. unfold handleStreamEvent. step_monad.
    destruct (handler_fails l ev) eqn:Hl; simpl.
    + exists 1. simpl. rewrite ?take_0. repeat split; try done; try lia.
      intros Hok. specialize (Hok l (list_elem_of_here _ _)). congruence.
    + destruct (for_each_listener handler_fails ev ls s) as [[o s'] t].
      simpl in *. exists (S n). simpl. subst t.
      split; [lia|]. split; [reflexivity|]. split.
      * rewrite Hiff. split.
        -- intros Hok l' Hl'. apply elem_of_cons in Hl' as [->|Hl']; auto.
        -- intros Hok l' Hl'. apply Hok. by apply list_elem_of_further.
      * intros Ho. by rewrite (Hall Ho).
Qed.

(** *** Properties of the whole future *)

(** X1: along every sequence of operations, once the cell is written no
    later operation changes it: the value after any continuation of the
    sequence is the value at the point where the cell was found written. *)
Theorem resolved_value_is_final (ops1 ops2 : list operation) s :
  is_done (result (run_operations handler_fails ops1 s)) = true ->
  result (run_operations handler_fails (ops1 ++ ops2) s)
  = result (run_operations handler_fails ops1 s).
Proof.
  intros Hdone. rewrite run_operations_app.
  by apply run_operations_result_done.
Qed.

(** X2: no operation removes or reorders a listener: after any sequence of
    operations the listener list is the list before it followed by the
    listeners the sequence registered, in the order of the calls, whether
    callbacks returned or threw in between. *)
Theorem listeners_only_grow (ops : list operation) s :
  _event_listeners (run_operations handler_fails ops s)
  = _event_listeners s ++ added_listeners ops.
Proof.
  unfold run_operations. revert s.
  induction ops as [|op ops IH]; intros s; simpl.
  - by rewrite app_nil_r.
  - rewrite IH, run_operation_listeners.
    rewrite <- app_assoc. f_equal.
    by destruct op.
Qed.

(** X3: in every state reached from the constructor, the description is
    the one given to the constructor, and a written cell holds a snapshot of
    this plan (its plan id and description) that decides the outcome: a
    success holds no failed session, a failure holds one and its message is
    "Stream failed". *)
Theorem reachable_resolution_is_consistent (pid : UUID) (desc : sstring)
    (coordinator : C) (ops : list operation) :
  let s :=
    run_operations handler_fails ops
      (make_stream_result_future pid desc coordinator) in
  plan_id s = pid /\ description s = desc /\ resolution_consistent s.
Proof.
  intros s. subst s. rewrite make_stream_result_future_fields.
  split; [by rewrite run_operations_plan_id|].
  split; [by rewrite run_operations_description|].
  by apply run_operations_consistent.
Qed.

(** X4: [fireStreamEvent] never changes the future, invokes a prefix of the
    registered listeners in registration order and nothing else, and returns
    normally exactly when no registered listener fails on the event, in which
    case the prefix is the whole list. *)
Theorem fireStreamEvent_invokes_a_prefix ev s :
  state_of (fireStreamEvent handler_fails ev s) = s
  /\ exists n,
      n <= length (_event_listeners s)
      /\ trace_of (fireStreamEvent handler_fails ev s)
         = map (fun l => HandleStreamEvent l ev) (take n (_event_listeners s))
      /\ (outcome_of (fireStreamEvent handler_fails ev s) = Returned tt
          <-> forall l, l ∈ _event_listeners s -> handler_fails l ev = false)
      /\ (outcome_of (fireStreamEvent handler_fails ev s) = Returned tt
          -> n = length (_event_listeners s)).
Proof.
  split; [apply (fireStreamEvent_state handler_fails ev s)|].
  destruct (for_each_listener_prefix ev (_event_listeners s) s)
    as (n & Hn & Htrace & Hiff & Hall).
  exists n. unfold fireStreamEvent. step_monad.
  destruct (for_each_listener handler_fails ev (_event_listeners s) s)
    as [[o s'] t]. simpl in *. done.
Qed.

(** X5: when the listeners handle the event, the cell is pending and the
    coordinator reports no active session once the completing session is
    recorded, [handleSessionComplete] logs, hands the session-complete event
    to every listener in order, records the session info, and then resolves
    with the snapshot taken after that recording, so the snapshot includes
    the session that just completed; the resolution line is logged last. *)
Theorem handleSessionComplete_resolves_after_recording
    (session : stream_session) s :
  (forall l, l ∈ _event_listeners s ->
             handler_fails l (SessionCompleteEvent session) = false) ->
  result s = Pending ->
  has_active_sessions
    (addSessionInfo (getSessionInfo session) (_coordinator s)) = false ->
  let recorded :=
    with_coordinator (addSessionInfo (getSessionInfo session)) s in
  let snapshot := getCurrentState recorded in
  handleSessionComplete handler_fails session s
  = (Returned tt,
     with_result
       (fun _ => if hasFailedSession snapshot
                 then Failed snapshot "Stream failed"
                 else Succeeded snapshot) recorded,
     Log INFO "[Stream #{}] Session with {} is complete"
       :: map (fun l => HandleStreamEvent l (SessionCompleteEvent session))
            (_event_listeners s)
       ++ [if hasFailedSession snapshot
           then Log WARN "[Stream #{}] Stream failed"
           else Log INFO "[Stream #{}] All sessions completed"]).
Proof.
  intros Hok Hpending Hidle recorded snapshot.
  rewrite handleSessionComplete_run, fireStreamEvent_all_return by exact Hok.
  fold recorded. rewrite maybeComplete_run.
  change (_coordinator recorded)
    with (addSessionInfo (getSessionInfo session) (_coordinator s)).
  rewrite Hidle. fold snapshot.
  destruct (hasFailedSession snapshot); unfold with_result; simpl;
    by rewrite Hpending.
Qed.

(** X6: when the coordinator still reports an active session once the
    completing session is recorded, [handleSessionComplete] leaves the cell as
    it was, whether a listener fails or not; and when the listeners handle
    the event it returns with the session recorded, having logged one line
    and handed the event to every listener in order. *)
Theorem handleSessionComplete_waits_for_active_sessions
    (session : stream_session) s :
  has_active_sessions
    (addSessionInfo (getSessionInfo session) (_coordinator s)) = true ->
  result (after (handleSessionComplete handler_fails session) s) = result s
  /\ ((forall l, l ∈ _event_listeners s ->
                 handler_fails l (SessionCompleteEvent session) = false) ->
      handleSessionComplete handler_fails session s
      = (Returned tt,
         with_coordinator (addSessionInfo (getSessionInfo session)) s,
         Log INFO "[Stream #{}] Session with {} is complete"
           :: map (fun l => HandleStreamEvent l (SessionCompleteEvent session))
                (_event_listeners s))).
Proof.
  intros Hactive.
  assert (maybeComplete
            (with_coordinator (addSessionInfo (getSessionInfo session)) s)
          = (Returned tt,
             with_coordinator (addSessionInfo (getSessionInfo session)) s, []))
    as Hcheck.
  { rewrite maybeComplete_run. simpl. by rewrite Hactive. }
  split.
  - destruct (handleSessionComplete_after session s) as [-> | ->]; [done|].
    unfold after, state_of. by rewrite Hcheck.
  - intros Hok.
    rewrite handleSessionComplete_run, fireStreamEvent_all_return by exact Hok.
    rewrite Hcheck. by rewrite app_nil_r.
Qed.

(** X7: [handleSessionPrepared] records before it notifies.  The session
    info of the session is added to the coordinator whether or not a listener
    fails on the event.  When the first listener that fails is [l], the
    failure is thrown to the caller with the info already added, after the
    log line and the invocations of the listeners up to and including [l].
    When the listeners handle the event, the call returns after the log line
    and one invocation per listener, in order, with a session-prepared event
    that carries the plan id of this future and that session info.  Nothing
    but the coordinator changes in any of the cases. *)
Theorem handleSessionPrepared_records_then_notifies
    (session : stream_session) s :
  let ev := SessionPreparedEvent (plan_id s) (getSessionInfo session) in
  let recorded :=
    with_coordinator (addSessionInfo (getSessionInfo session)) s in
  let line :=
    Log INFO "[Stream #{} ID#{}] Prepare completed. Receiving {} files({} bytes), sending {} files({} bytes)" in
  after (handleSessionPrepared handler_fails session) s = recorded
  /\ (forall pre l post,
        _event_listeners s = pre ++ l :: post ->
        (forall l', l' ∈ pre -> handler_fails l' ev = false) ->
        handler_fails l ev = true ->
        handleSessionPrepared handler_fails session s
        = (Thrown (ListenerFailure l ev), recorded,
           line :: map (fun l => HandleStreamEvent l ev) (pre ++ [l])))
  /\ ((forall l, l ∈ _event_listeners s -> handler_fails l ev = false) ->
      handleSessionPrepared handler_fails session s
      = (Returned tt, recorded,
         line :: map (fun l => HandleStreamEvent l ev) (_event_listeners s))).
Proof.
  intros ev recorded line.
  split; [apply handleSessionPrepared_after|]. split.
  - intros pre l post Hreg Hpre Hl.
    unfold handleSessionPrepared, fireStreamEvent. step_monad.
    rewrite Hreg. fold ev.
    by rewrite for_each_listener_first_failure.
  - intros Hok. unfold handleSessionPrepared. step_monad.
    by rewrite fireStreamEvent_all_return.
Qed.

(** X8: [handleProgress] updates before it notifies.  The coordinator is
    updated with the progress whether or not a listener fails on the event.
    When the first listener that fails is [l], the failure is thrown to the
    caller with the coordinator already updated, after the invocations of
    the listeners up to and including [l].  When the listeners handle the
    event, the call returns after one invocation per listener, in order, with
    a progress event that carries the plan id of this future and the
    progress.  Nothing is logged and nothing but the coordinator changes in
    any of the cases. *)
Theorem handleProgress_updates_then_notifies (progress : progress_info) s :
  let ev := ProgressEvent (plan_id s) progress in
  let updated := with_coordinator (updateProgress progress) s in
  after (handleProgress handler_fails progress) s = updated
  /\ (forall pre l post,
        _event_listeners s = pre ++ l :: post ->
        (forall l', l' ∈ pre -> handler_fails l' ev = false) ->
        handler_fails l ev = true ->
        handleProgress handler_fails progress s
        = (Thrown (ListenerFailure l ev), updated,
           map (fun l => HandleStreamEvent l ev) (pre ++ [l])))
  /\ ((forall l, l ∈ _event_listeners s -> handler_fails l ev = false) ->
      handleProgress handler_fails progress s
      = (Returned tt, updated,
         map (fun l => HandleStreamEvent l ev) (_event_listeners s))).
Proof.
  intros ev updated.
  split; [apply handleProgress_after|]. split.
  - intros pre l post Hreg Hpre Hl.
    unfold handleProgress, fireStreamEvent. step_monad.
    rewrite Hreg. fold ev.
    by rewrite for_each_listener_first_failure.
  - intros Hok. unfold handleProgress. step_monad.
    by rewrite fireStreamEvent_all_return.
Qed.

(** X9: [maybeComplete] always returns normally, invokes no listener and
    changes nothing of the future but the cell; while the coordinator reports
    an active session it changes nothing at all and logs nothing. *)
Theorem maybeComplete_only_writes_the_cell s :
  outcome_of (maybeComplete s) = Returned tt
  /\ deliveries (trace_of (maybeComplete s)) = []
  /\ plan_id (after maybeComplete s) = plan_id s
  /\ description (after maybeComplete s) = description s
  /\ _coordinator (after maybeComplete s) = _coordinator s
  /\ _event_listeners (after maybeComplete s) = _event_listeners s
  /\ (has_active_sessions (_coordinator s) = true ->
      maybeComplete s = (Returned tt, s, [])).
Proof.
  destruct (maybeComplete_after_fields s) as (Hp & Hl & Hc).
  split; [|split; [|split; [exact Hp|split;
    [apply maybeComplete_after_description|split; [exact Hc|split;
    [exact Hl|]]]]]].
  - unfold outcome_of. rewrite maybeComplete_run.
    destruct (has_active_sessions _); [done|]. by destruct (hasFailedSession _).
  - unfold trace_of. rewrite maybeComplete_run.
    destruct (has_active_sessions _); [done|]. by destruct (hasFailedSession _).
  - intros Hactive. by rewrite maybeComplete_run, Hactive.
Qed.

(** X10: [equals] identifies futures by plan alone.  For a future at address
    [a] compared with an object that, if it lives at [a], is that future:
    [equals] holds exactly when the object is a future with the same plan
    id, whatever its coordinator, listeners, description or result; it never
    holds for null or for an object of another class; and when it holds, it
    holds the other way round and the two hash codes are equal. *)
Theorem equals_identifies_the_plan (UUID_hashCode : UUID -> Z) (a : N) s
    (o : object C) :
  (address_of o = Some a -> o = FutureObject a s) ->
  (equals a s o = true
   <-> exists b that, o = FutureObject b that /\ plan_id that = plan_id s)
  /\ (forall b that,
        o = FutureObject b that -> equals a s o = true ->
        equals b that (FutureObject a s) = true
        /\ hashCode UUID_hashCode that = hashCode UUID_hashCode s).
Proof.
  intros Hheap.
  assert (equals a s o = true
          <-> exists b that, o = FutureObject b that /\ plan_id that = plan_id s)
    as Hiff.
  { unfold equals. case_bool_decide as Haddr.
    - rewrite (Hheap Haddr). split; [|done]. intros _. by exists a, s.
    - destruct o as [|b|b that]; simpl.
      + split; [done|]. by intros (? & ? & ? & _).
      + split; [done|]. by intros (? & ? & ? & _).
      + rewrite N.eqb_eq. split.
        * intros Heq. by exists b, that.
        * by intros (? & ? & [= <- <-] & ->). }
  split; [exact Hiff|].
  intros b that -> Heq. apply Hiff in Heq as (? & ? & [= <- <-] & Hplan).
  split; [|unfold hashCode; by rewrite Hplan].
  unfold equals. case_bool_decide; [done|]. simpl. by apply N.eqb_eq.
Qed.

(** X11: the body kept inside [#if 0] in [init_receiving_side] is idempotent
    per plan and local to it: a second notification for the same plan, with
    whatever session index, description, peer and flag, returns the future
    and the registry that the first one returned, and no notification changes
    what is registered under another plan id. *)
Theorem init_receiving_side_disabled_body_idempotent (idx idx' : Z)
    (pid : UUID) (desc desc' : sstring) (from from' : inet_address)
    (keep keep' : bool) (manager : stream_manager C) :
  let first :=
    init_receiving_side_disabled_body idx pid desc from keep manager in
  init_receiving_side_disabled_body idx' pid desc' from' keep' first.2 = first
  /\ forall other, other <> pid ->
       getReceivingStream other first.2 = getReceivingStream other manager.
Proof.
  intros first.
  destruct (init_receiving_side_disabled_body_find_or_create
              idx pid desc from keep manager) as (Hfound & Hold & Hnew).
  fold first in Hfound, Hold, Hnew.
  split.
  - destruct (init_receiving_side_disabled_body_find_or_create
                idx' pid desc' from' keep' first.2) as (_ & Hagain & _).
    rewrite (Hagain _ Hfound). by destruct first.
  - intros other Hother.
    destruct (getReceivingStream pid manager) as [f|] eqn:Hfind.
    + by rewrite (Hold f eq_refl).
    + destruct (Hnew eq_refl) as (Hfut & ->).
      unfold getReceivingStream, registerReceiving. simpl.
      apply lookup_insert_ne. rewrite Hfut, make_stream_result_future_fields.
      simpl. congruence.
Qed.

End Invariants.

(** ** The invariants on the two-peer plan *)

(** X1, at the completion of peer A that resolves the plan, followed by a
    progress callback, a completion check and a registration. *)
Lemma resolved_value_is_final_witness :
  is_done
    (result
       (run_operations no_handler_fails
          [Callback (OnSessionComplete (session_A St_completed))]
          (future_of (coordinator_done St_completed) [1%N] Pending)))
  = true
  /\ result
       (run_operations no_handler_fails
          ([Callback (OnSessionComplete (session_A St_completed))]
           ++ [Callback (OnProgress progress_A); MaybeComplete;
               AddEventListener 3])
          (future_of (coordinator_done St_completed) [1%N] Pending))
     = Succeeded
         (StreamState 7 "repair" [info_A St_completed; info_B St_completed]).
Proof.
  split; [reflexivity|].
  exact (resolved_value_is_final no_handler_fails
           [Callback (OnSessionComplete (session_A St_completed))]
           [Callback (OnProgress progress_A); MaybeComplete; AddEventListener 3]
           (future_of (coordinator_done St_completed) [1%N] Pending) eq_refl).
Defined.

(** X5, at the completion of peer A when peer B has failed. *)
Lemma handleSessionComplete_resolves_after_recording_witness :
  ((forall l,
       l ∈ _event_listeners
             (future_of (coordinator_done St_failed) [1%N; 2%N] Pending) ->
       no_handler_fails l (SessionCompleteEvent (session_A St_completed))
       = false)
   /\ result (future_of (coordinator_done St_failed) [1%N; 2%N] Pending)
      = Pending
   /\ has_active_sessions
        (addSessionInfo (getSessionInfo (session_A St_completed))
           (_coordinator
              (future_of (coordinator_done St_failed) [1%N; 2%N] Pending)))
      = false)
  /\ result
       (after (handleSessionComplete no_handler_fails (session_A St_completed))
          (future_of (coordinator_done St_failed) [1%N; 2%N] Pending))
     = Failed (StreamState 7 "repair" [info_A St_completed; info_B St_failed])
         "Stream failed".
Proof.
  split; [split; [reflexivity | split; reflexivity]|].
  unfold after, state_of.
  rewrite (handleSessionComplete_resolves_after_recording
             (H := simple_coordinator_ops) no_handler_fails
             (session_A St_completed)
             (future_of (coordinator_done St_failed) [1%N; 2%N] Pending)
             (fun _ _ => eq_refl) eq_refl ltac:(reflexivity)).
  reflexivity.
Defined.

(** X6, at the completion of peer A while peer B is still streaming. *)
Lemma handleSessionComplete_waits_for_active_sessions_witness :
  has_active_sessions
    (addSessionInfo (getSessionInfo (session_A St_completed))
       (_coordinator
          (future_of (coordinator_done St_streaming) [1%N] Pending)))
  = true
  /\ result
       (after (handleSessionComplete no_handler_fails (session_A St_completed))
          (future_of (coordinator_done St_streaming) [1%N] Pending))
     = Pending.
Proof.
  split; [reflexivity|].
  exact (proj1 (handleSessionComplete_waits_for_active_sessions
                  (H := simple_coordinator_ops)
                  no_handler_fails (session_A St_completed)
                  (future_of (coordinator_done St_streaming) [1%N] Pending)
                  ltac:(reflexivity))).
Defined.

(** X7, at the preparation of peer A with three listeners: once with the
    second listener failing, where the failure is thrown and the session info
    is recorded all the same, and once with listeners that handle the
    event. *)
Lemma handleSessionPrepared_records_then_notifies_witness :
  (_event_listeners (future_of empty_coordinator [1%N; 2%N; 3%N] Pending)
   = [1%N] ++ 2%N :: [3%N]
   /\ (forall l', l' ∈ [1%N] ->
       only_fails 2 l' (SessionPreparedEvent 7 (info_A St_prepared)) = false)
   /\ only_fails 2 2 (SessionPreparedEvent 7 (info_A St_prepared)) = true
   /\ handleSessionPrepared (only_fails 2) (session_A St_prepared)
        (future_of empty_coordinator [1%N; 2%N; 3%N] Pending)
      = (Thrown (ListenerFailure 2 (SessionPreparedEvent 7 (info_A St_prepared))),
         future_of (addSessionInfo (info_A St_prepared) empty_coordinator)
           [1%N; 2%N; 3%N] Pending,
         [Log INFO "[Stream #{} ID#{}] Prepare completed. Receiving {} files({} bytes), sending {} files({} bytes)";
          HandleStreamEvent 1 (SessionPreparedEvent 7 (info_A St_prepared));
          HandleStreamEvent 2 (SessionPreparedEvent 7 (info_A St_prepared))]))
  /\ (forall l,
        l ∈ _event_listeners
              (future_of empty_coordinator [1%N; 2%N; 3%N] Pending) ->
        no_handler_fails l (SessionPreparedEvent 7 (info_A St_prepared))
        = false)
  /\ getAllSessionInfo
       (_coordinator
          (state_of
             (handleSessionPrepared no_handler_fails (session_A St_prepared)
                (future_of empty_coordinator [1%N; 2%N; 3%N] Pending))))
     = [info_A St_prepared].
Proof.
  assert (forall l', l' ∈ [1%N] ->
            only_fails 2 l' (SessionPreparedEvent 7 (info_A St_prepared))
            = false) as Hpre.
  { intros l' Hl'. apply list_elem_of_singleton in Hl' as ->. reflexivity. }
  split; [split; [reflexivity | split; [exact Hpre | split; [reflexivity|]]]|].
  - exact (proj1 (proj2 (handleSessionPrepared_records_then_notifies
                           (H := simple_coordinator_ops) (only_fails 2)
                           (session_A St_prepared)
                           (future_of empty_coordinator [1%N; 2%N; 3%N] Pending)))
             [1%N] 2%N [3%N] eq_refl Hpre eq_refl).
  - split; [reflexivity|].
    rewrite (proj2 (proj2 (handleSessionPrepared_records_then_notifies
                             (H := simple_coordinator_ops) no_handler_fails
                             (session_A St_prepared)
                             (future_of empty_coordinator [1%N; 2%N; 3%N]
                                Pending)))
               (fun _ _ => eq_refl)).
    reflexivity.
Defined.

(** X8, at a progress report of peer A with three listeners: once with the
    second listener failing, where the failure is thrown and the progress is
    merged all the same, and once with listeners that handle the event. *)
Lemma handleProgress_updates_then_notifies_witness :
  (_event_listeners
     (future_of (addSessionInfo (info_A St_streaming) empty_coordinator)
        [1%N; 2%N; 3%N] Pending)
   = [1%N] ++ 2%N :: [3%N]
   /\ (forall l', l' ∈ [1%N] ->
       only_fails 2 l' (ProgressEvent 7 progress_A) = false)
   /\ only_fails 2 2 (ProgressEvent 7 progress_A) = true
   /\ handleProgress (only_fails 2) progress_A
        (future_of (addSessionInfo (info_A St_streaming) empty_coordinator)
           [1%N; 2%N; 3%N] Pending)
      = (Thrown (ListenerFailure 2 (ProgressEvent 7 progress_A)),
         future_of
           (addSessionInfo (add_bytes 512 (info_A St_streaming))
              empty_coordinator)
           [1%N; 2%N; 3%N] Pending,
         [HandleStreamEvent 1 (ProgressEvent 7 progress_A);
          HandleStreamEvent 2 (ProgressEvent 7 progress_A)]))
  /\ (forall l,
        l ∈ _event_listeners
              (future_of (addSessionInfo (info_A St_streaming) empty_coordinator)
                 [1%N; 2%N; 3%N] Pending) ->
        no_handler_fails l (ProgressEvent 7 progress_A) = false)
  /\ trace_of
       (handleProgress no_handler_fails progress_A
          (future_of (addSessionInfo (info_A St_streaming) empty_coordinator)
             [1%N; 2%N; 3%N] Pending))
     = [HandleStreamEvent 1 (ProgressEvent 7 progress_A);
        HandleStreamEvent 2 (ProgressEvent 7 progress_A);
        HandleStreamEvent 3 (ProgressEvent 7 progress_A)].
Proof.
  assert (forall l', l' ∈ [1%N] ->
            only_fails 2 l' (ProgressEvent 7 progress_A) = false) as Hpre.
  { intros l' Hl'. apply list_elem_of_singleton in Hl' as ->. reflexivity. }
  split; [split; [reflexivity | split; [exact Hpre | split; [reflexivity|]]]|].
  - exact (proj1 (proj2 (handleProgress_updates_then_notifies
                           (H := simple_coordinator_ops) (only_fails 2)
                           progress_A
                           (future_of
                              (addSessionInfo (info_A St_streaming)
                                 empty_coordinator)
                              [1%N; 2%N; 3%N] Pending)))
             [1%N] 2%N [3%N] eq_refl Hpre eq_refl).
  - split; [reflexivity|].
    rewrite (proj2 (proj2 (handleProgress_updates_then_notifies
                             (H := simple_coordinator_ops) no_handler_fails
                             progress_A
                             (future_of
                                (addSessionInfo (info_A St_streaming)
                                   empty_coordinator)
                                [1%N; 2%N; 3%N] Pending)))
               (fun _ _ => eq_refl)).
    reflexivity.
Defined.

(** X9, at a completion check while peer B is still streaming. *)
Lemma maybeComplete_only_writes_the_cell_witness :
  has_active_sessions
    (_coordinator (future_of (coordinator_done St_streaming) [1%N] Pending))
  = true
  /\ maybeComplete (future_of (coordinator_done St_streaming) [1%N] Pending)
     = (Returned tt,
        future_of (coordinator_done St_streaming) [1%N] Pending, []).
Proof.
  split; [reflexivity|].
  exact (proj2 (proj2 (proj2 (proj2 (proj2 (proj2
           (maybeComplete_only_writes_the_cell (H := simple_coordinator_ops)
              (future_of (coordinator_done St_streaming) [1%N] Pending)))))))
           ltac:(reflexivity)).
Defined.

(** X10, at two futures of plan 7 that differ in everything else. *)
Lemma equals_identifies_the_plan_witness :
  (address_of
     (FutureObject 200
        (future_of (coordinator_done St_failed) [1%N; 2%N] resolved_empty))
   = Some 100%N ->
   FutureObject 200
     (future_of (coordinator_done St_failed) [1%N; 2%N] resolved_empty)
   = FutureObject 100 (future_of empty_coordinator [] Pending))
  /\ equals 100 (future_of empty_coordinator [] Pending)
       (FutureObject 200
          (future_of (coordinator_done St_failed) [1%N; 2%N] resolved_empty))
     = true.
Proof.
  assert (address_of
            (FutureObject 200
               (future_of (coordinator_done St_failed) [1%N; 2%N]
                  resolved_empty))
          = Some 100%N ->
          FutureObject 200
            (future_of (coordinator_done St_failed) [1%N; 2%N] resolved_empty)
          = FutureObject 100 (future_of empty_coordinator [] Pending))
    as Hheap by (intros Haddr; discriminate Haddr).
  split; [exact Hheap|].
  apply (proj1 (equals_identifies_the_plan (fun u => Z.of_N u) 100
                  (future_of empty_coordinator [] Pending) _ Hheap)).
  eexists _, _. split; reflexivity.
Defined.

(** X11, at a first notification for plan 7 on an empty registry, with plan 8
    as the other plan. *)
Lemma init_receiving_side_disabled_body_idempotent_witness :
  (8%N <> 7%N)
  /\ getReceivingStream 8
       (init_receiving_side_disabled_body 0 7 "repair" 10 false
          (StreamManager (C := simple_coordinator) ∅)).2
     = None.
Proof.
  assert (8%N <> 7%N) as Hother by discriminate.
  split; [exact Hother|].
  exact (proj2 (init_receiving_side_disabled_body_idempotent 0 1 7
                  "repair" "bootstrap" 10 11 false true
                  (StreamManager (C := simple_coordinator) ∅)) 8%N Hother).
Defined.
